(** * Dispense aggregate, view projection and stream consumers

    Shallow embedding of the event-sourced dispense workflow:
    - [crates/domain/src/dispenses/aggregate.rs] ([Dispense::handle],
      [Dispense::apply] and the validators),
    - [crates/domain/src/dispenses/events.rs] ([event_type], [event_version]),
    - [crates/domain/src/dispenses/view.rs] ([View::update], [Query::update]),
    - the batch loops of the [projector-views], [publisher] and
      [projector-analyzer] lambdas, the publisher's record conversion, and
      the object key built by the API's [get_upload_url].

    Timestamps ([DateTime<Utc>]) are integers; [Utc::now()] is read once
    per successful [handle] branch, so the clock reading is an explicit
    argument [now]. The default timestamp is the Unix epoch, 0. *)

From Stdlib Require Import String Ascii List ZArith Bool Lia.
Import ListNotations.
Open Scope string_scope.

(** ** Data model ([aggregate.rs], [commands.rs], [events.rs], [errors.rs]) *)

Definition DateTime := Z.

Inductive DispenseStatus :=
| Pending
| Analyzing
| Ready
| Complete
| Cancelled.

Record DrugItem := mkDrugItem {
  drug_id : string;
  name : string;
  quantity : N (* u32 *)
}.

Record Dispense := mkDispense {
  id : string;
  created_at : DateTime;
  updated_at : DateTime;
  status : DispenseStatus;
  prescription_id : option string;
  prescription_url : option string;
  prescription_analyzed : bool;
  patient_id : option string;
  patient_name : option string;
  drugs : list DrugItem;
  deleted : bool
}.

(** [#[derive(Default)]]: empty strings, epoch, [Pending], [None], [false]. *)
Definition Dispense_default : Dispense :=
  mkDispense "" 0%Z 0%Z Pending None None false None None [] false.

Inductive Command :=
| StartDispense (c_id : string)
| UploadPrescription (c_prescription_id : string) (c_url : string)
| AnalyzePrescription (c_analysis_data : string)
| AddPatient (c_patient_id : string) (c_name : string)
| AddDrugs (c_drugs : list DrugItem)
| CompleteDispense
| CancelDispense.

Inductive Event :=
| DispenseStarted (e_id : string) (e_created_at : DateTime) (e_status : DispenseStatus)
| PrescriptionUploaded (e_id : string) (e_prescription_id : string) (e_url : string)
    (e_updated_at : DateTime)
| PrescriptionAnalyzed (e_id : string) (e_analysis_data : string) (e_updated_at : DateTime)
| PatientAdded (e_id : string) (e_patient_id : string) (e_patient_name : string)
    (e_updated_at : DateTime)
| DrugsAdded (e_id : string) (e_drugs : list DrugItem) (e_updated_at : DateTime)
| DispenseCompleted (e_id : string) (e_updated_at : DateTime)
| DispenseCancelled (e_id : string) (e_updated_at : DateTime).

Inductive Error :=
| NotFound (entity : string)
| Uniqueness (field : string)
| Forbidden
| InvalidStateTransition (from to : string)
| Validation (message : string).

(** Rust's [Result<A, E>]. *)
Inductive result (A E : Type) :=
| Ok (a : A)
| Err (e : E).
Arguments Ok {A E} a.
Arguments Err {A E} e.

Definition AGGREGATE_TYPE : string := "Dispense".

Definition is_empty (s : string) : bool :=
  match s with EmptyString => true | _ => false end.

(** ** Validators ([impl Dispense]) *)

Definition validate_new (self : Dispense) : result unit Error :=
  if negb (is_empty self.(id)) then Err (Uniqueness "id") else Ok tt.

Definition validate_existing (self : Dispense) : result unit Error :=
  if is_empty self.(id) then Err (NotFound AGGREGATE_TYPE)
  else if self.(deleted) then Err Forbidden
  else Ok tt.

Definition validate_can_complete (self : Dispense) : result unit Error :=
  match self.(patient_id) with
  | None => Err (Validation "Cannot complete dispense without patient")
  | Some _ =>
      match self.(drugs) with
      | [] => Err (Validation "Cannot complete dispense without drugs")
      | _ => Ok tt
      end
  end.

(** The [?] operator. *)
Definition bind_res {A B E} (r : result A E) (k : A -> result B E) : result B E :=
  match r with Ok a => k a | Err e => Err e end.

Notation "x <- r ;; k" := (bind_res r (fun x => k))
  (at level 61, r at next level, right associativity).

(** ** [Dispense::handle]; [now] is the value of [Utc::now()]. *)

Definition handle (self : Dispense) (command : Command) (now : DateTime)
  : result (list Event) Error :=
  match command with
  | StartDispense cid =>
      _ <- validate_new self ;;
      Ok [DispenseStarted cid now Pending]
  | UploadPrescription pid url =>
      _ <- validate_existing self ;;
      Ok [PrescriptionUploaded self.(id) pid url now]
  | AnalyzePrescription data =>
      _ <- validate_existing self ;;
      Ok [PrescriptionAnalyzed self.(id) data now]
  | AddPatient pid nm =>
      _ <- validate_existing self ;;
      Ok [PatientAdded self.(id) pid nm now]
  | AddDrugs ds =>
      _ <- validate_existing self ;;
      Ok [DrugsAdded self.(id) ds now]
  | CompleteDispense =>
      _ <- validate_existing self ;;
      _ <- validate_can_complete self ;;
      Ok [DispenseCompleted self.(id) now]
  | CancelDispense =>
      _ <- validate_existing self ;;
      Ok [DispenseCancelled self.(id) now]
  end.

(** ** [Dispense::apply] (in place mutation as a functional record update) *)

Definition apply (self : Dispense) (event : Event) : Dispense :=
  match event with
  | DispenseStarted i c st =>
      mkDispense i c c st self.(prescription_id) self.(prescription_url)
        self.(prescription_analyzed) self.(patient_id) self.(patient_name)
        self.(drugs) self.(deleted)
  | PrescriptionUploaded _ pid url u =>
      mkDispense self.(id) self.(created_at) u Analyzing (Some pid) (Some url)
        self.(prescription_analyzed) self.(patient_id) self.(patient_name)
        self.(drugs) self.(deleted)
  | PrescriptionAnalyzed _ _ u =>
      mkDispense self.(id) self.(created_at) u Ready self.(prescription_id)
        self.(prescription_url) true self.(patient_id) self.(patient_name)
        self.(drugs) self.(deleted)
  | PatientAdded _ pid pn u =>
      mkDispense self.(id) self.(created_at) u self.(status) self.(prescription_id)
        self.(prescription_url) self.(prescription_analyzed) (Some pid) (Some pn)
        self.(drugs) self.(deleted)
  | DrugsAdded _ ds u =>
      mkDispense self.(id) self.(created_at) u self.(status) self.(prescription_id)
        self.(prescription_url) self.(prescription_analyzed) self.(patient_id)
        self.(patient_name) ds self.(deleted)
  | DispenseCompleted _ u =>
      mkDispense self.(id) self.(created_at) u Complete self.(prescription_id)
        self.(prescription_url) self.(prescription_analyzed) self.(patient_id)
        self.(patient_name) self.(drugs) self.(deleted)
  | DispenseCancelled _ u =>
      mkDispense self.(id) self.(created_at) u Cancelled self.(prescription_id)
        self.(prescription_url) self.(prescription_analyzed) self.(patient_id)
        self.(patient_name) self.(drugs) self.(deleted)
  end.

(** Replay: the framework folds [apply] over an event list in order. *)
Definition apply_all (s : Dispense) (evs : list Event) : Dispense :=
  fold_left apply evs s.

(** One accepted command followed by the application of its events. *)
Definition step (s : Dispense) (c : Command) (now : DateTime) : result Dispense Error :=
  match handle s c now with
  | Ok evs => Ok (apply_all s evs)
  | Err e => Err e
  end.

(** ** Read model ([view.rs]) *)

Module View.

(** [cqrs_es::EventEnvelope<Dispense>]; the metadata [HashMap<String, String>]
    is a list of distinct keys with their values. *)
Record EventEnvelope := mkEnvelope {
  aggregate_id : string;
  sequence : nat;
  payload : Event;
  metadata : list (string * string)
}.

Fixpoint get (k : string) (m : list (string * string)) : option string :=
  match m with
  | [] => None
  | (k', v) :: m' => if String.eqb k k' then Some v else get k m'
  end.

Record View := mkView {
  aggregate_type : string;
  command_id : string;
  id : string;
  dispense : Dispense
}.

Definition View_default : View := mkView "" "" "" Dispense_default.

(** [View::update] *)
Definition update (self : View) (event : EventEnvelope) : View :=
  mkView AGGREGATE_TYPE
    (match get "command_id" event.(metadata) with Some v => v | None => "" end)
    event.(aggregate_id)
    (apply self.(dispense) event.(payload)).

End View.

(** ** Batch stream consumers *)

(** [projector-views]: [handle] over a [KinesisEvent]. The per-record work
    ([handle_record]: UTF-8 decoding and JSON parsing of the payload) is a
    parameter: the loop is what is verified here. *)
Section KinesisBatch.

Record KinesisEventRecord := mkKinesisRecord {
  sequence_number : string;
  kinesis_data : list Byte.byte
}.

Record KinesisEventResponse := mkKinesisResponse {
  kinesis_batch_item_failures : list string
}.

Variable handle_record : KinesisEventRecord -> result unit string.

Definition kinesis_step (batch_item_failures : list string) (record : KinesisEventRecord)
  : list string :=
  let sequence := record.(sequence_number) in
  match handle_record record with
  | Err _ => (batch_item_failures ++ [sequence])%list
  | Ok _ => batch_item_failures
  end.

Definition kinesis_handle (records : list KinesisEventRecord)
  : result KinesisEventResponse string :=
  Ok (mkKinesisResponse (fold_left kinesis_step records [])).

End KinesisBatch.

(** [publisher]: [handle] over a DynamoDB stream [Event]. [env_stream_name] is
    [std::env::var("EVENT_STREAM_NAME")]; the per-record work (deserialising
    the new image, converting it and [put_record] on the stream) is the
    parameter [publish_record]. *)
Section DynamoBatch.

Record DynamoEventRecord := mkDynamoRecord {
  event_id : string;
  event_name : string;
  new_image : list (string * string)
}.

Record DynamoDbEventResponse := mkDynamoResponse {
  dynamo_batch_item_failures : list (option string)
}.

Variable publish_record : DynamoEventRecord -> string -> result unit string.

Definition dynamo_step (stream_name : string) (batch_item_failures : list (option string))
  (record : DynamoEventRecord) : list (option string) :=
  if String.eqb record.(event_name) "INSERT" then
    let eid := record.(event_id) in
    match publish_record record stream_name with
    | Err _ => (batch_item_failures ++ [Some eid])%list
    | Ok _ => batch_item_failures
    end
  else batch_item_failures.

Definition publisher_handle (env_stream_name : option string)
  (records : list DynamoEventRecord) : result DynamoDbEventResponse string :=
  match env_stream_name with
  | None => Err "environment variable not found"
  | Some stream_name =>
      Ok (mkDynamoResponse (fold_left (dynamo_step stream_name) records []))
  end.

End DynamoBatch.

(** ** Analysis pipeline: [handle_s3_event] ([projector-analyzer]) *)

Section AnalyzerPipeline.

(** Event log: the committed events of each aggregate id, in order. *)
Definition EventLog := string -> list Event.

Definition log_update (log : EventLog) (k : string) (evs : list Event) : EventLog :=
  fun k' => if String.eqb k' k then evs else log k'.

(** Observable effects of the handler: each command handed to the engine,
    and each warning logged. *)
Inductive Effect :=
| Exec (aggregate : string) (command : Command)
| Warn (message : string).

Record World := mkWorld {
  event_log : EventLog;
  effects : list Effect
}.

(** Failures of the event store behind the engine: another writer
    committed to the aggregate first (the optimistic concurrency check on
    the sequence number), or the store itself failed. *)
Inductive StoreFailure :=
| AggregateConflict
| DatabaseError (message : string).

(** What the event store does during one execution: loading and committing
    succeed, loading the aggregate fails, or the commit fails. *)
Inductive StoreOutcome :=
| StoreOk
| LoadFailed (f : StoreFailure)
| CommitFailed (f : StoreFailure).

(** Errors the handler propagates with [?]. *)
Inductive HandlerError :=
| UserError (e : Error)
| StoreError (f : StoreFailure)
| MissingField (what : string)
| DownloadError.

(** Replayed state of an aggregate. *)
Definition load (w : World) (aggregate : string) : Dispense :=
  apply_all Dispense_default (w.(event_log) aggregate).

(** Modelled from the spec: [CqrsFramework::execute_with_metadata] of the
    [cqrs_es] engine (sections 4.2, 4.3 and 7): load the aggregate's events
    and replay them from the zero value, call [handle], and on success commit
    the new events at the end of the aggregate's stream. Loading can fail
    (before [handle] runs) and the commit can fail, on a concurrency conflict
    or a store error; the [store] argument says which happens. On any
    failure nothing is committed and the error is returned to the caller.
    Metadata and projector dispatch do not affect the event log and are
    left out. *)
Definition execute (w : World) (aggregate : string) (command : Command) (now : DateTime)
  (store : StoreOutcome) : World * result unit HandlerError :=
  let effs := (w.(effects) ++ [Exec aggregate command])%list in
  match store with
  | LoadFailed f => (mkWorld w.(event_log) effs, Err (StoreError f))
  | _ =>
      match handle (load w aggregate) command now with
      | Ok evs =>
          match store with
          | CommitFailed f => (mkWorld w.(event_log) effs, Err (StoreError f))
          | _ =>
              (mkWorld (log_update w.(event_log) aggregate
                          (w.(event_log) aggregate ++ evs)%list) effs,
               Ok tt)
          end
      | Err e => (mkWorld w.(event_log) effs, Err (UserError e))
      end
  end.

(** [str::split('/')]: always at least one part. *)
Fixpoint split_slash (s : string) : list string :=
  match s with
  | EmptyString => [""]
  | String ch rest =>
      let parts := split_slash rest in
      if Ascii.eqb ch "/"%char then "" :: parts
      else match parts with
           | p :: ps => String ch p :: ps
           | [] => [String ch ""]
           end
  end.

(** One record of an [S3Event]. *)
Record S3EventRecord := mkS3Record {
  bucket_name : option string;
  object_key : option string
}.

(** What the environment supplies while one record is handled: the
    [Ulid::new()] used as prescription id, the [Utc::now()] readings of the
    two command executions and of the mock analysis, the outcome of
    [download_from_s3], and what the event store does in each of the two
    command executions. *)
Record S3Env := mkS3Env {
  env_prescription_ulid : string;
  env_now_upload : DateTime;
  env_now_analysis : DateTime;
  env_now_analyze : DateTime;
  env_download : option (list Byte.byte);
  env_store_upload : StoreOutcome;
  env_store_analyze : StoreOutcome
}.

(** [serde_json::to_string] of the mock analysis object built from the key,
    the downloaded size and the analysis time. *)
Variable analysis_json : string -> nat -> DateTime -> string.

Definition handle_s3_record (w : World) (record : S3EventRecord) (env : S3Env)
  : World * result unit HandlerError :=
  match record.(bucket_name) with
  | None => (w, Err (MissingField "Missing bucket name"))
  | Some bucket =>
  match record.(object_key) with
  | None => (w, Err (MissingField "Missing object key"))
  | Some key =>
      let warn := (mkWorld w.(event_log)
                     (w.(effects) ++ [Warn ("Invalid S3 key format: " ++ key)])%list, Ok tt) in
      match split_slash key with
      | p0 :: dispense_id :: _ =>
          if String.eqb p0 "prescriptions" then
            let prescription_url := "s3://" ++ bucket ++ "/" ++ key in
            let '(w1, r1) := execute w dispense_id
                               (UploadPrescription env.(env_prescription_ulid) prescription_url)
                               env.(env_now_upload) env.(env_store_upload) in
            match r1 with
            | Err e => (w1, Err e)
            | Ok _ =>
                match env.(env_download) with
                | None => (w1, Err DownloadError)
                | Some file_data =>
                    let analysis_data :=
                      analysis_json key (length file_data) env.(env_now_analysis) in
                    execute w1 dispense_id (AnalyzePrescription analysis_data)
                      env.(env_now_analyze) env.(env_store_analyze)
                end
            end
          else warn
      | _ => warn
      end
  end
  end.

(** [handle_s3_event]: records in order, stopping at the first error. *)
Fixpoint handle_s3_event (w : World) (records : list (S3EventRecord * S3Env))
  : World * result unit HandlerError :=
  match records with
  | [] => (w, Ok tt)
  | (r, env) :: rest =>
      let '(w1, res) := handle_s3_record w r env in
      match res with
      | Err e => (w1, Err e)
      | Ok _ => handle_s3_event w1 rest
      end
  end.

End AnalyzerPipeline.

(** ** Auxiliary definitions used in the statements *)

Definition map_ok {A B E} (f : A -> B) (r : result A E) : result B E :=
  match r with Ok a => Ok (f a) | Err e => Err e end.

(** The event with its timestamp replaced by [t]. *)
Definition retime (t : DateTime) (e : Event) : Event :=
  match e with
  | DispenseStarted i _ st => DispenseStarted i t st
  | PrescriptionUploaded i p u _ => PrescriptionUploaded i p u t
  | PrescriptionAnalyzed i a _ => PrescriptionAnalyzed i a t
  | PatientAdded i p n _ => PatientAdded i p n t
  | DrugsAdded i ds _ => DrugsAdded i ds t
  | DispenseCompleted i _ => DispenseCompleted i t
  | DispenseCancelled i _ => DispenseCancelled i t
  end.

(** Status after an accepted command, from the status before it. *)
Definition status_effect (c : Command) (st : DispenseStatus) : DispenseStatus :=
  match c with
  | StartDispense _ => Pending
  | UploadPrescription _ _ => Analyzing
  | AnalyzePrescription _ => Ready
  | AddPatient _ _ | AddDrugs _ => st
  | CompleteDispense => Complete
  | CancelDispense => Cancelled
  end.

(** A sequence of commands, each handled on the state left by the previous
    ones; the first rejection stops the run. *)
Fixpoint run (s : Dispense) (cmds : list (Command * DateTime)) : result Dispense Error :=
  match cmds with
  | [] => Ok s
  | (c, t) :: rest =>
      match step s c t with
      | Ok s' => run s' rest
      | Err e => Err e
      end
  end.

(** The states visited while applying [evs] from [s], [s] included. *)
Fixpoint states (s : Dispense) (evs : list Event) : list Dispense :=
  s :: match evs with
       | [] => []
       | e :: es => states (apply s e) es
       end.

(** Number of consecutive pairs where [f] goes from [false] to [true]. *)
Fixpoint count_rises (f : Dispense -> bool) (l : list Dispense) : nat :=
  match l with
  | a :: ((b :: _) as t) => (if negb (f a) && f b then 1 else 0) + count_rises f t
  | _ => 0
  end.

(** [f] never goes from [true] back to [false] along [l]. *)
Fixpoint never_cleared (f : Dispense -> bool) (l : list Dispense) : bool :=
  match l with
  | a :: ((b :: _) as t) => implb (f a) (f b) && never_cleared f t
  | _ => true
  end.

Definition has_prescription_id (s : Dispense) : bool :=
  match s.(prescription_id) with Some _ => true | None => false end.

Definition has_prescription_url (s : Dispense) : bool :=
  match s.(prescription_url) with Some _ => true | None => false end.

Definition is_failure {A E} (r : result A E) : bool :=
  match r with Ok _ => false | Err _ => true end.

(** ** Event tags ([impl DomainEvent for Event], [events.rs]) *)

Definition event_type (e : Event) : string :=
  match e with
  | DispenseStarted _ _ _ => "Dispense:Started"
  | PrescriptionUploaded _ _ _ _ => "Dispense:PrescriptionUploaded"
  | PrescriptionAnalyzed _ _ _ => "Dispense:PrescriptionAnalyzed"
  | PatientAdded _ _ _ _ => "Dispense:PatientAdded"
  | DrugsAdded _ _ _ => "Dispense:DrugsAdded"
  | DispenseCompleted _ _ => "Dispense:Completed"
  | DispenseCancelled _ _ => "Dispense:Cancelled"
  end.

Definition event_version (e : Event) : string := "1.0".

(** The variant of an event, as a number (for comparing variants only). *)
Definition event_variant (e : Event) : nat :=
  match e with
  | DispenseStarted _ _ _ => 0
  | PrescriptionUploaded _ _ _ _ => 1
  | PrescriptionAnalyzed _ _ _ => 2
  | PatientAdded _ _ _ _ => 3
  | DrugsAdded _ _ _ => 4
  | DispenseCompleted _ _ => 5
  | DispenseCancelled _ _ => 6
  end.

(** The [id] field every event carries. *)
Definition event_aggregate_id (e : Event) : string :=
  match e with
  | DispenseStarted i _ _ | PrescriptionUploaded i _ _ _ | PrescriptionAnalyzed i _ _
  | PatientAdded i _ _ _ | DrugsAdded i _ _ | DispenseCompleted i _
  | DispenseCancelled i _ => i
  end.

(** ** [Query::update] ([view.rs]) *)

Module Query.

(** [cqrs_es::persist::ViewContext]. *)
Record ViewContext := mkViewContext {
  view_instance_id : string;
  version : nat
}.

(** [Query::update]: [loaded] is the outcome of [load_with_context]; the
    result is the view and context handed to [update_view] (or the load
    error, propagated by [?]). *)
Definition update (loaded : result (option (View.View * ViewContext)) string)
  (dispense_id : string) (events : list View.EventEnvelope)
  : result (View.View * ViewContext) string :=
  match loaded with
  | Err e => Err e
  | Ok o =>
      let '(view, view_context) :=
        match o with
        | None => (View.View_default, mkViewContext dispense_id 0)
        | Some (view, context) => (view, context)
        end in
      Ok (fold_left View.update events view, view_context)
  end.

End Query.

(** ** Upload key of [get_upload_url] ([api/src/main.rs]) *)

(** [format!("prescriptions/{}/{}", id, prescription_id)]. *)
Definition upload_key (id prescription_id : string) : string :=
  "prescriptions/" ++ id ++ "/" ++ prescription_id.

(** ** Event log records ([publisher/src/main.rs]) *)

Module Publisher.

Local Open Scope nat_scope.

Definition in_range (b : Byte.byte) (lo hi : nat) : bool :=
  (lo <=? Byte.to_nat b) && (Byte.to_nat b <=? hi).

Definition cont (b : Byte.byte) : bool := in_range b 128 191.

(** UTF-8 well-formedness as checked by [String::from_utf8] (the table of
    well-formed byte sequences: no overlong forms, no surrogates, nothing
    above U+10FFFF). *)
Fixpoint utf8_valid (l : list Byte.byte) : bool :=
  match l with
  | [] => true
  | b0 :: r =>
      let n0 := Byte.to_nat b0 in
      if n0 <=? 127 then utf8_valid r
      else if (194 <=? n0) && (n0 <=? 223) then
        match r with b1 :: r' => cont b1 && utf8_valid r' | _ => false end
      else if n0 =? 224 then
        match r with
        | b1 :: b2 :: r' => in_range b1 160 191 && cont b2 && utf8_valid r'
        | _ => false end
      else if ((225 <=? n0) && (n0 <=? 236)) || (n0 =? 238) || (n0 =? 239) then
        match r with
        | b1 :: b2 :: r' => cont b1 && cont b2 && utf8_valid r'
        | _ => false end
      else if n0 =? 237 then
        match r with
        | b1 :: b2 :: r' => in_range b1 128 159 && cont b2 && utf8_valid r'
        | _ => false end
      else if n0 =? 240 then
        match r with
        | b1 :: b2 :: b3 :: r' => in_range b1 144 191 && cont b2 && cont b3 && utf8_valid r'
        | _ => false end
      else if (241 <=? n0) && (n0 <=? 243) then
        match r with
        | b1 :: b2 :: b3 :: r' => cont b1 && cont b2 && cont b3 && utf8_valid r'
        | _ => false end
      else if n0 =? 244 then
        match r with
        | b1 :: b2 :: b3 :: r' => in_range b1 128 143 && cont b2 && cont b3 && utf8_valid r'
        | _ => false end
      else false
  end.

Record EventLogRecord := mkEventLogRecord {
  aggregate_type_and_id : string;
  event_type : string;
  aggregate_id : string;
  aggregate_type : string;
  metadata : list Byte.byte;
  payload : list Byte.byte;
  event_version : string;
  aggregate_id_sequence : nat
}.

(** Modelled from the spec: [domain::DomainEvent] (its source file
    [event.rs] is not in the tree): the stream envelope [{id, aggregate_type,
    sequence, event_type, event_version, payload, metadata}], built by
    [DomainEvent::new] from its arguments in that order. A Rust [String] is
    its UTF-8 bytes. *)
Record DomainEvent := mkDomainEvent {
  de_id : string;
  de_aggregate_type : string;
  de_sequence : nat;
  de_event_type : string;
  de_event_version : string;
  de_payload : list Byte.byte;
  de_metadata : list Byte.byte
}.

(** The two [map_err] messages of [try_from] ([Utf8Error] details left out). *)
Inductive ConversionError :=
| InvalidPayloadUtf8
| InvalidMetadataUtf8.

(** [impl TryFrom<EventLogRecord> for DomainEvent]. *)
Definition try_from (record : EventLogRecord) : result DomainEvent ConversionError :=
  if utf8_valid record.(payload) then
    if utf8_valid record.(metadata) then
      Ok (mkDomainEvent record.(aggregate_id) record.(aggregate_type)
            record.(aggregate_id_sequence) record.(event_type) record.(event_version)
            record.(payload) record.(metadata))
    else Err InvalidMetadataUtf8
  else Err InvalidPayloadUtf8.

Definition is_ascii (l : list Byte.byte) : bool :=
  forallb (fun b => Byte.to_nat b <=? 127) l.

End Publisher.

(** ** Fields an event overwrites

    [kept_or_set f g]: the function [g] on states either keeps the field [f]
    or sets it to a value that does not depend on the state. *)
Definition kept_or_set {A} (f : Dispense -> A) (g : Dispense -> Dispense) : Prop :=
  (forall s, f (g s) = f s) \/ (forall s t, f (g s) = f (g t)).

Definition overwrites (g : Dispense -> Dispense) : Prop :=
  kept_or_set id g /\ kept_or_set created_at g /\ kept_or_set updated_at g
  /\ kept_or_set status g /\ kept_or_set prescription_id g
  /\ kept_or_set prescription_url g /\ kept_or_set prescription_analyzed g
  /\ kept_or_set patient_id g /\ kept_or_set patient_name g
  /\ kept_or_set drugs g /\ kept_or_set deleted g.

(** * Properties *)

(** ** Helper lemmas *)

Lemma apply_all_app (s : Dispense) (l1 l2 : list Event) :
  apply_all s (l1 ++ l2) = apply_all (apply_all s l1) l2.
Proof. unfold apply_all. apply fold_left_app. Qed.

Lemma apply_keeps_deleted (s : Dispense) (e : Event) :
  deleted (apply s e) = deleted s.
Proof. destruct e; reflexivity. Qed.

(** Every event but [DispenseStarted] keeps the aggregate id. *)
Lemma apply_keeps_id (s : Dispense) (e : Event) :
  (forall i c st, e <> DispenseStarted i c st) -> id (apply s e) = id s.
Proof.
  intros H; destruct e; try reflexivity.
  exfalso; eapply H; reflexivity.
Qed.

Lemma validate_existing_ok (s : Dispense) :
  is_empty (id s) = false -> deleted s = false -> validate_existing s = Ok tt.
Proof. intros Hid Hdel; unfold validate_existing; rewrite Hid, Hdel; reflexivity. Qed.

Ltac existing_state Hid Hdel :=
  unfold step, handle; rewrite (validate_existing_ok _ Hid Hdel); cbn [bind_res].

(** ** C10 *)

(** C10: every accepted command emits exactly one event: whenever [handle]
    returns [Ok evs], [evs] is a one-element list. *)
Theorem handle_emits_single_event (s : Dispense) (c : Command) (now : DateTime)
  (evs : list Event) :
  handle s c now = Ok evs -> exists e, evs = [e].
Proof.
  unfold handle.
  destruct c, (validate_new s), (validate_existing s), (validate_can_complete s);
    cbn; intro H; try discriminate; injection H as <-; eauto.
Qed.

Lemma handle_emits_single_event_witness :
  handle Dispense_default (StartDispense "d1") 7%Z = Ok [DispenseStarted "d1" 7%Z Pending]
  /\ exists e, [DispenseStarted "d1" 7%Z Pending] = [e].
Proof.
  split; [reflexivity |].
  apply (handle_emits_single_event Dispense_default (StartDispense "d1") 7%Z).
  reflexivity.
Defined.

(** ** C1 *)

(** C1 (counterexample): [handle] reads the clock, so two invocations on the
    same state and command at different instants return different event
    lists. *)
Lemma handle_depends_on_clock :
  handle Dispense_default (StartDispense "d1") 0%Z
  <> handle Dispense_default (StartDispense "d1") 1%Z.
Proof. cbn. intro H; injection H as H; discriminate. Qed.

(** C1 (amended): the clock only sets timestamps. For every state [s],
    command [c] and instants [t1], [t2], the result at [t2] is the result at
    [t1] with each event's timestamp replaced by [t2]: same success or
    failure, same error, and the same events up to their timestamps. *)
Theorem handle_deterministic_up_to_clock (s : Dispense) (c : Command) (t1 t2 : DateTime) :
  handle s c t2 = map_ok (map (retime t2)) (handle s c t1).
Proof.
  unfold handle.
  destruct c, (validate_new s), (validate_existing s), (validate_can_complete s);
    reflexivity.
Qed.

(** ** C3 *)

(** C3: for a state with a non-empty id, [StartDispense] fails with
    [Uniqueness]; starting twice with a non-empty id fails the second time;
    for a state with an empty id, every other command fails with
    [NotFound]. *)
Theorem start_unique_and_others_not_found (s : Dispense) (c : Command) (now : DateTime) :
  (is_empty (id s) = false ->
     forall cid, handle s (StartDispense cid) now = Err (Uniqueness "id"))
  /\ (forall cid t1 s1, is_empty cid = false ->
        step s (StartDispense cid) t1 = Ok s1 ->
        handle s1 (StartDispense cid) now = Err (Uniqueness "id"))
  /\ (is_empty (id s) = true -> (forall cid, c <> StartDispense cid) ->
        handle s c now = Err (NotFound AGGREGATE_TYPE)).
Proof.
  split; [| split].
  - intros Hid cid; unfold handle, validate_new; rewrite Hid; reflexivity.
  - intros cid t1 s1 Hcid Hstep.
    unfold step, handle, validate_new in Hstep.
    destruct (is_empty (id s)); cbn in Hstep; [| discriminate].
    injection Hstep as <-.
    unfold handle, validate_new; cbn; rewrite Hcid; reflexivity.
  - intros Hid Hc.
    destruct c as [cid | | | | | |];
      [exfalso; exact (Hc cid eq_refl) | ..];
      unfold handle, validate_existing; rewrite Hid; reflexivity.
Qed.

Lemma start_unique_and_others_not_found_witness :
  handle (mkDispense "d1" 1%Z 1%Z Pending None None false None None [] false)
    (StartDispense "d2") 5%Z = Err (Uniqueness "id")
  /\ handle Dispense_default CancelDispense 5%Z = Err (NotFound AGGREGATE_TYPE).
Proof.
  split.
  - apply (proj1 (start_unique_and_others_not_found
                    (mkDispense "d1" 1%Z 1%Z Pending None None false None None [] false)
                    CancelDispense 5%Z)).
    reflexivity.
  - apply (proj2 (proj2 (start_unique_and_others_not_found Dispense_default
                           CancelDispense 5%Z))).
    + reflexivity.
    + intros cid H; discriminate.
Defined.

(** ** C4 *)

(** C4: on an existing, non-deleted state, [CompleteDispense] fails with a
    [Validation] error exactly when the patient is unset or the drug list is
    empty; otherwise it emits [DispenseCompleted]. In particular, after
    [AddPatient] and a non-empty [AddDrugs], in either order, it succeeds. *)
Theorem complete_requires_patient_and_drugs (s : Dispense) (now : DateTime)
  (Hid : is_empty (id s) = false) (Hdel : deleted s = false) :
  ((exists m, handle s CompleteDispense now = Err (Validation m))
     <-> (patient_id s = None \/ drugs s = []))
  /\ (patient_id s <> None -> drugs s <> [] ->
        handle s CompleteDispense now = Ok [DispenseCompleted (id s) now])
  /\ (forall pid nm ds t1 t2, ds <> [] ->
        (exists s1, run s [(AddPatient pid nm, t1); (AddDrugs ds, t2)] = Ok s1
                    /\ handle s1 CompleteDispense now = Ok [DispenseCompleted (id s) now])
        /\ (exists s2, run s [(AddDrugs ds, t2); (AddPatient pid nm, t1)] = Ok s2
                    /\ handle s2 CompleteDispense now = Ok [DispenseCompleted (id s) now])).
Proof.
  unfold handle; rewrite (validate_existing_ok _ Hid Hdel); cbn [bind_res].
  unfold validate_can_complete.
  split; [| split].
  - destruct (patient_id s), (drugs s); split; intros H.
    + right; reflexivity.
    + eexists; reflexivity.
    + destruct H as [m H]; discriminate.
    + destruct H as [H | H]; discriminate.
    + left; reflexivity.
    + eexists; reflexivity.
    + left; reflexivity.
    + eexists; reflexivity.
  - destruct (patient_id s) as [p |]; [| intro H; exfalso; apply H; reflexivity].
    destruct (drugs s) as [| d ds]; [intros _ H; exfalso; apply H; reflexivity |].
    reflexivity.
  - intros pid nm ds t1 t2 Hds.
    destruct ds as [| d ds]; [exfalso; apply Hds; reflexivity |].
    split; (eexists; split;
      [unfold run, step, handle; rewrite (validate_existing_ok _ Hid Hdel);
       cbn; unfold validate_existing; cbn; rewrite ?Hid, ?Hdel; reflexivity
      | unfold handle, validate_existing, validate_can_complete; cbn;
        rewrite ?Hid, ?Hdel; reflexivity]).
Qed.

Lemma complete_requires_patient_and_drugs_witness :
  handle (mkDispense "d1" 1%Z 3%Z Ready None None true (Some "p1") (Some "Jane")
            [mkDrugItem "a" "Aspirin" 30] false) CompleteDispense 4%Z
  = Ok [DispenseCompleted "d1" 4%Z].
Proof.
  apply (proj1 (proj2 (complete_requires_patient_and_drugs
    (mkDispense "d1" 1%Z 3%Z Ready None None true (Some "p1") (Some "Jane")
       [mkDrugItem "a" "Aspirin" 30] false) 4%Z eq_refl eq_refl))).
  - discriminate.
  - discriminate.
Defined.

(** ** C2 *)

(** C2 (counterexample): a [Complete] dispense is moved back to [Analyzing]
    by an accepted [UploadPrescription], and a [Cancelled] one to [Complete]
    by an accepted [CompleteDispense]. *)
Lemma terminal_status_left :
  match step (mkDispense "d1" 1%Z 4%Z Complete (Some "p0") (Some "s3://b/k") true
                (Some "p1") (Some "Jane") [mkDrugItem "a" "Aspirin" 30] false)
             (UploadPrescription "p2" "s3://b/k2") 5%Z with
  | Ok s' => status s' = Analyzing
  | Err _ => False
  end
  /\ match step (mkDispense "d1" 1%Z 4%Z Cancelled None None false
                   (Some "p1") (Some "Jane") [mkDrugItem "a" "Aspirin" 30] false)
                CompleteDispense 5%Z with
     | Ok s' => status s' = Complete
     | Err _ => False
     end.
Proof. split; reflexivity. Qed.

(** C2 (amended): [handle] never looks at the status. On every existing,
    non-deleted state, whatever its status ([Complete] and [Cancelled]
    included), an accepted command sets the status to [status_effect c]:
    [UploadPrescription] to [Analyzing], [AnalyzePrescription] to [Ready],
    [CompleteDispense] to [Complete], [CancelDispense] to [Cancelled], while
    [AddPatient] and [AddDrugs] keep it; the only rejections are
    [StartDispense] ([Uniqueness]) and [CompleteDispense] without a patient
    or without drugs ([Validation]). *)
Theorem status_set_by_command (s : Dispense) (c : Command) (now : DateTime)
  (Hid : is_empty (id s) = false) (Hdel : deleted s = false) :
  match step s c now with
  | Ok s' => status s' = status_effect c (status s)
  | Err e => ((exists cid, c = StartDispense cid) /\ e = Uniqueness "id")
             \/ (c = CompleteDispense /\ (patient_id s = None \/ drugs s = [])
                 /\ exists m, e = Validation m)
  end.
Proof.
  destruct c as [cid | | | | | |].
  - unfold step, handle, validate_new; rewrite Hid; cbn.
    left; split; [exists cid |]; reflexivity.
  - existing_state Hid Hdel; reflexivity.
  - existing_state Hid Hdel; reflexivity.
  - existing_state Hid Hdel; reflexivity.
  - existing_state Hid Hdel; reflexivity.
  - existing_state Hid Hdel; unfold validate_can_complete.
    destruct (patient_id s) eqn:Hp; [destruct (drugs s) eqn:Hd |]; cbn;
      first [reflexivity
            | right; split; [reflexivity | split; [auto | eexists; reflexivity]]].
  - existing_state Hid Hdel; reflexivity.
Qed.

Lemma status_set_by_command_witness :
  status (apply (mkDispense "d1" 1%Z 4%Z Complete None None false None None [] false)
            (PrescriptionUploaded "d1" "p2" "u" 5%Z)) = Analyzing.
Proof.
  exact (status_set_by_command
           (mkDispense "d1" 1%Z 4%Z Complete None None false None None [] false)
           (UploadPrescription "p2" "u") 5%Z eq_refl eq_refl).
Defined.

(** ** C5 *)

Lemma states_head (s : Dispense) (evs : list Event) :
  exists tl, states s evs = s :: tl.
Proof. destruct evs; eexists; reflexivity. Qed.

(** A field that no event clears is cleared nowhere along a run and is set
    at most once. *)
Lemma monotone_field (f : Dispense -> bool)
  (Hf : forall s e, f s = true -> f (apply s e) = true) :
  forall evs s, never_cleared f (states s evs) = true
                /\ count_rises f (states s evs) <= (if f s then 0 else 1).
Proof.
  induction evs as [| e es IH]; intros s; [split; cbn; [reflexivity | destruct (f s); lia] |].
  destruct (IH (apply s e)) as [H1 H2].
  destruct (states_head (apply s e) es) as [tl Htl].
  change (states s (e :: es)) with (s :: states (apply s e) es).
  rewrite Htl in *.
  change (never_cleared f (s :: apply s e :: tl))
    with (implb (f s) (f (apply s e)) && never_cleared f (apply s e :: tl)).
  change (count_rises f (s :: apply s e :: tl))
    with ((if negb (f s) && f (apply s e) then 1 else 0) + count_rises f (apply s e :: tl)).
  rewrite H1, andb_true_r.
  specialize (Hf s e).
  destruct (f s), (f (apply s e)); cbn in *; split; try reflexivity; try lia;
    discriminate (Hf eq_refl).
Qed.

(** C5: along any sequence of applied events, [prescription_id],
    [prescription_url] and [prescription_analyzed] are never reset to
    unset once set, and each goes from unset to set at most once. *)
Theorem prescription_fields_set_once (s : Dispense) (evs : list Event) :
  never_cleared has_prescription_id (states s evs) = true
  /\ never_cleared has_prescription_url (states s evs) = true
  /\ never_cleared prescription_analyzed (states s evs) = true
  /\ count_rises has_prescription_id (states s evs) <= 1
  /\ count_rises has_prescription_url (states s evs) <= 1
  /\ count_rises prescription_analyzed (states s evs) <= 1.
Proof.
  assert (Hpid : forall s e, has_prescription_id s = true ->
                             has_prescription_id (apply s e) = true)
    by (intros s' e H; destruct e; exact H || reflexivity).
  assert (Hurl : forall s e, has_prescription_url s = true ->
                             has_prescription_url (apply s e) = true)
    by (intros s' e H; destruct e; exact H || reflexivity).
  assert (Han : forall s e, prescription_analyzed s = true ->
                            prescription_analyzed (apply s e) = true)
    by (intros s' e H; destruct e; exact H || reflexivity).
  destruct (monotone_field _ Hpid evs s) as [A1 B1].
  destruct (monotone_field _ Hurl evs s) as [A2 B2].
  destruct (monotone_field _ Han evs s) as [A3 B3].
  repeat split; auto;
    [destruct (has_prescription_id s) | destruct (has_prescription_url s)
    | destruct (prescription_analyzed s)]; lia.
Qed.

(** ** C9 *)

(** C9: the scenario StartDispense("d1"), AddDrugs([a/Aspirin/30]),
    AddPatient("p1", "Jane"), CompleteDispense from the zero value: each
    command emits its single event, and the final state is [Complete] with
    exactly the one drug, at every clock reading. *)
Theorem dispense_scenario (t1 t2 t3 t4 : DateTime) :
  let item := mkDrugItem "a" "Aspirin" 30 in
  let s0 := Dispense_default in
  handle s0 (StartDispense "d1") t1 = Ok [DispenseStarted "d1" t1 Pending] /\
  let s1 := apply_all s0 [DispenseStarted "d1" t1 Pending] in
  handle s1 (AddDrugs [item]) t2 = Ok [DrugsAdded "d1" [item] t2] /\
  let s2 := apply_all s1 [DrugsAdded "d1" [item] t2] in
  handle s2 (AddPatient "p1" "Jane") t3 = Ok [PatientAdded "d1" "p1" "Jane" t3] /\
  let s3 := apply_all s2 [PatientAdded "d1" "p1" "Jane" t3] in
  handle s3 CompleteDispense t4 = Ok [DispenseCompleted "d1" t4] /\
  let s4 := apply_all s3 [DispenseCompleted "d1" t4] in
  status s4 = Complete /\ drugs s4 = [item].
Proof. cbn. repeat split. Qed.

(** ** C7 *)

(** C7: [View::update] is idempotent per event envelope. *)
Theorem view_update_idempotent (v : View.View) (e : View.EventEnvelope) :
  View.update (View.update v e) e = View.update v e.
Proof. destruct e as [agg sq [] md]; reflexivity. Qed.

(** ** C8 *)

Lemma fold_kinesis_step (hr : KinesisEventRecord -> result unit string)
  (records : list KinesisEventRecord) (acc : list string) :
  fold_left (kinesis_step hr) records acc
  = (acc ++ map sequence_number (filter (fun r => is_failure (hr r)) records))%list.
Proof.
  revert acc; induction records as [| r rs IH]; intros acc; cbn.
  - rewrite app_nil_r; reflexivity.
  - rewrite IH; unfold kinesis_step; destruct (hr r); cbn.
    + reflexivity.
    + rewrite <- app_assoc; reflexivity.
Qed.

Lemma fold_dynamo_step (pr : DynamoEventRecord -> string -> result unit string)
  (stream_name : string) (records : list DynamoEventRecord) (acc : list (option string)) :
  fold_left (dynamo_step pr stream_name) records acc
  = (acc ++ map (fun r => Some (event_id r))
              (filter (fun r => String.eqb (event_name r) "INSERT"
                                && is_failure (pr r stream_name)) records))%list.
Proof.
  revert acc; induction records as [| r rs IH]; intros acc; cbn.
  - rewrite app_nil_r; reflexivity.
  - rewrite IH; unfold dynamo_step.
    destruct (String.eqb (event_name r) "INSERT"), (pr r stream_name); cbn;
      try reflexivity; rewrite <- app_assoc; reflexivity.
Qed.

(** C8 (counterexample): when [EVENT_STREAM_NAME] is unset the publisher
    returns an error for the whole batch, not the batch response listing the
    one record that fails. *)
Lemma publisher_unconfigured_fails_whole_batch :
  let pr := fun (r : DynamoEventRecord) (_ : string) =>
              if String.eqb (event_id r) "item2" then Err "parse error" else Ok tt in
  let batch := [mkDynamoRecord "item1" "INSERT" []; mkDynamoRecord "item2" "INSERT" [];
                mkDynamoRecord "item3" "INSERT" []] in
  publisher_handle pr None batch <> Ok (mkDynamoResponse [Some "item2"]).
Proof. cbn. discriminate. Qed.

(** C8 (amended): the [projector-views] handler reports exactly the
    sequence numbers of the records whose processing fails, in batch order.
    The publisher, when [EVENT_STREAM_NAME] is set, reports exactly the
    event ids of the INSERT records whose processing fails; records of
    other kinds are skipped and never reported; when the variable is unset
    the whole invocation fails. *)
Theorem batch_failures_isolated
  (hr : KinesisEventRecord -> result unit string) (krecords : list KinesisEventRecord)
  (pr : DynamoEventRecord -> string -> result unit string)
  (env : option string) (drecords : list DynamoEventRecord) :
  kinesis_handle hr krecords
  = Ok (mkKinesisResponse
          (map sequence_number (filter (fun r => is_failure (hr r)) krecords)))
  /\ publisher_handle pr env drecords
     = match env with
       | Some stream_name =>
           Ok (mkDynamoResponse
                 (map (fun r => Some (event_id r))
                    (filter (fun r => String.eqb (event_name r) "INSERT"
                                      && is_failure (pr r stream_name)) drecords)))
       | None => Err "environment variable not found"
       end.
Proof.
  split.
  - unfold kinesis_handle; rewrite fold_kinesis_step; reflexivity.
  - unfold publisher_handle; destruct env as [stream_name |]; [| reflexivity].
    rewrite fold_dynamo_step; reflexivity.
Qed.

(** ** C6 *)

Lemma split_slash_cons (s : string) : exists p ps, split_slash s = p :: ps.
Proof.
  destruct s as [| ch rest]; cbn; [eauto |].
  destruct (Ascii.eqb ch "/"%char); [eauto |].
  destruct (split_slash rest); eauto.
Qed.

(** A single segment [d] followed by ['/']. *)
Lemma split_slash_segment (d r : string) :
  split_slash d = [d] -> split_slash (d ++ "/" ++ r) = d :: split_slash r.
Proof.
  induction d as [| ch d IH]; intros Hd; cbn; [reflexivity |].
  cbn in Hd.
  destruct (Ascii.eqb ch "/"%char) eqn:Hch; [discriminate |].
  destruct (split_slash d) as [| p ps] eqn:Hsd;
    [destruct (split_slash_cons d) as (p0 & ps0 & H0); congruence |].
  injection Hd as Hp Hps; subst p ps.
  pose proof (IH eq_refl) as IH'; cbn in IH'; rewrite IH'; reflexivity.
Qed.

(** Two parts or more: the first one is followed by ['/']. *)
Lemma split_slash_two_parts (s p q : string) (l : list string) :
  split_slash s = p :: q :: l -> exists r, s = (p ++ String "/" r)%string.
Proof.
  revert p q l; induction s as [| ch rest IH]; intros p q l H; cbn in H.
  - discriminate.
  - destruct (Ascii.eqb ch "/"%char) eqn:Hch.
    + apply Ascii.eqb_eq in Hch; subst ch.
      injection H as <- _; exists rest; reflexivity.
    + destruct (split_slash rest) as [| p' ps] eqn:Hs; [discriminate |].
      injection H as <- Hps; subst ps.
      destruct (IH p' q l eq_refl) as [r ->]; exists r; reflexivity.
Qed.

Lemma handle_s3_event_single (aj : string -> nat -> DateTime -> string) (w : World)
  (r : S3EventRecord) (env : S3Env) :
  handle_s3_event aj w [(r, env)] = handle_s3_record aj w r env.
Proof.
  cbn; destruct (handle_s3_record aj w r env) as [w1 [[] | e]]; reflexivity.
Qed.

Lemma load_after_commit (w : World) (d : string) (effs : list Effect) (evs : list Event) :
  load (mkWorld (log_update (event_log w) d (event_log w d ++ evs)%list) effs) d
  = apply_all (load w d) evs.
Proof.
  unfold load, log_update; cbn [event_log]; rewrite String.eqb_refl, apply_all_app; reflexivity.
Qed.

Lemma split_slash_prescriptions (x : string) :
  split_slash ("prescriptions/" ++ x) = "prescriptions" :: split_slash x.
Proof. reflexivity. Qed.

Lemma handle_upload_existing (s : Dispense) (p u : string) (t : DateTime) :
  is_empty (id s) = false -> deleted s = false ->
  handle s (UploadPrescription p u) t = Ok [PrescriptionUploaded (id s) p u t].
Proof. intros Hid Hdel; unfold handle; rewrite (validate_existing_ok _ Hid Hdel); reflexivity. Qed.

Lemma handle_analyze_existing (s : Dispense) (a : string) (t : DateTime) :
  is_empty (id s) = false -> deleted s = false ->
  handle s (AnalyzePrescription a) t = Ok [PrescriptionAnalyzed (id s) a t].
Proof. intros Hid Hdel; unfold handle; rewrite (validate_existing_ok _ Hid Hdel); reflexivity. Qed.

Lemma handle_upload_new (s : Dispense) (p u : string) (t : DateTime) :
  is_empty (id s) = true ->
  handle s (UploadPrescription p u) t = Err (NotFound AGGREGATE_TYPE).
Proof. intros Hid; unfold handle, validate_existing; rewrite Hid; reflexivity. Qed.

Lemma execute_ok (w : World) (d : string) (c : Command) (now : DateTime) (evs : list Event) :
  handle (load w d) c now = Ok evs ->
  execute w d c now StoreOk
  = (mkWorld (log_update (event_log w) d (event_log w d ++ evs)%list)
       (effects w ++ [Exec d c])%list, Ok tt).
Proof. intros H; unfold execute; rewrite H; reflexivity. Qed.

Lemma execute_err (w : World) (d : string) (c : Command) (now : DateTime)
  (store : StoreOutcome) (e : Error) :
  handle (load w d) c now = Err e -> (forall f, store <> LoadFailed f) ->
  execute w d c now store
  = (mkWorld (event_log w) (effects w ++ [Exec d c])%list, Err (UserError e)).
Proof.
  intros H Hs; unfold execute; destruct store as [| f | f];
    [| exfalso; exact (Hs f eq_refl) |]; rewrite H; reflexivity.
Qed.

Lemma execute_commit_failed (w : World) (d : string) (c : Command) (now : DateTime)
  (evs : list Event) (f : StoreFailure) :
  handle (load w d) c now = Ok evs ->
  execute w d c now (CommitFailed f)
  = (mkWorld (event_log w) (effects w ++ [Exec d c])%list, Err (StoreError f)).
Proof. intros H; unfold execute; rewrite H; reflexivity. Qed.

(** C6 (counterexample): for a dispense that was never started, the key
    [prescriptions/d1/scan.png] yields a single, rejected [UploadPrescription],
    no [AnalyzePrescription], an error, and a status that is not [Ready]. *)
Lemma s3_upload_unknown_dispense :
  let aj := fun (_ : string) (_ : nat) (_ : DateTime) => "{}" in
  let key := "prescriptions/d1/scan.png" in
  let '(w', r) := handle_s3_event aj (mkWorld (fun _ => []) [])
                    [(mkS3Record (Some "b") (Some key),
                      mkS3Env "P1" 1%Z 2%Z 3%Z (Some []) StoreOk StoreOk)] in
  r = Err (UserError (NotFound AGGREGATE_TYPE))
  /\ effects w' = [Exec "d1" (UploadPrescription "P1" ("s3://b/" ++ key))]
  /\ status (load w' "d1") <> Ready.
Proof. cbn. split; [reflexivity | split; [reflexivity | discriminate]]. Qed.

(** C6 (amended): one upload notification with bucket [b] and key [k] of
    the form [prescriptions/d/rest], [d] a single segment, unless said
    otherwise.
    - If aggregate [d] exists and is not deleted, the download succeeds and
      the event store loads and commits both times: exactly
      [UploadPrescription] (with the generated id and [s3://b/k]) and then
      [AnalyzePrescription] run against [d], the handler succeeds, and [d]
      ends [Ready] with the prescription id and url set and analyzed.
    - If loading [d] fails, or [d] exists, is not deleted and the commit of
      the upload fails (a concurrency conflict or a store error): only the
      [UploadPrescription] is attempted, nothing is committed and the handler
      returns the store's error.
    - If the upload is committed but the commit of the analysis fails: both
      commands run, the handler returns the store's error, and [d] is left
      [Analyzing] with the new prescription id.
    - If [d] was never started and loading it succeeds: only the
      [UploadPrescription] is attempted, it fails with [NotFound], nothing is
      committed and the handler returns that error.
    - If [k] does not start with [prescriptions/]: no command, the event log
      is unchanged, one warning is logged and the handler succeeds. *)
Theorem s3_upload_commands (aj : string -> nat -> DateTime -> string) (w : World)
  (bucket key : string) (env : S3Env) :
  let '(w', r) := handle_s3_event aj w [(mkS3Record (Some bucket) (Some key), env)] in
  let url := ("s3://" ++ bucket ++ "/" ++ key)%string in
  let upload := UploadPrescription (env_prescription_ulid env) url in
  (forall d rest bytes,
     key = ("prescriptions/" ++ d ++ "/" ++ rest)%string -> split_slash d = [d] ->
     is_empty (id (load w d)) = false -> deleted (load w d) = false ->
     env_download env = Some bytes ->
     env_store_upload env = StoreOk -> env_store_analyze env = StoreOk ->
     r = Ok tt
     /\ effects w' = (effects w ++
          [Exec d upload;
           Exec d (AnalyzePrescription (aj key (length bytes) (env_now_analysis env)))])%list
     /\ status (load w' d) = Ready
     /\ prescription_id (load w' d) = Some (env_prescription_ulid env)
     /\ prescription_url (load w' d) = Some url
     /\ prescription_analyzed (load w' d) = true)
  /\ (forall d rest f,
        key = ("prescriptions/" ++ d ++ "/" ++ rest)%string -> split_slash d = [d] ->
        env_store_upload env = LoadFailed f
        \/ (is_empty (id (load w d)) = false /\ deleted (load w d) = false
            /\ env_store_upload env = CommitFailed f) ->
        r = Err (StoreError f)
        /\ effects w' = (effects w ++ [Exec d upload])%list
        /\ event_log w' = event_log w)
  /\ (forall d rest bytes f,
        key = ("prescriptions/" ++ d ++ "/" ++ rest)%string -> split_slash d = [d] ->
        is_empty (id (load w d)) = false -> deleted (load w d) = false ->
        env_download env = Some bytes ->
        env_store_upload env = StoreOk -> env_store_analyze env = CommitFailed f ->
        r = Err (StoreError f)
        /\ effects w' = (effects w ++
             [Exec d upload;
              Exec d (AnalyzePrescription (aj key (length bytes) (env_now_analysis env)))])%list
        /\ status (load w' d) = Analyzing
        /\ prescription_id (load w' d) = Some (env_prescription_ulid env))
  /\ (forall d rest,
        key = ("prescriptions/" ++ d ++ "/" ++ rest)%string -> split_slash d = [d] ->
        is_empty (id (load w d)) = true ->
        (forall f, env_store_upload env <> LoadFailed f) ->
        r = Err (UserError (NotFound AGGREGATE_TYPE))
        /\ effects w' = (effects w ++ [Exec d upload])%list
        /\ event_log w' = event_log w)
  /\ ((forall rest, key <> ("prescriptions/" ++ rest)%string) ->
        r = Ok tt
        /\ event_log w' = event_log w
        /\ effects w' = (effects w ++ [Warn ("Invalid S3 key format: " ++ key)])%list).
Proof.
  rewrite handle_s3_event_single.
  destruct (handle_s3_record aj w (mkS3Record (Some bucket) (Some key)) env)
    as [w' r] eqn:Hrec.
  unfold handle_s3_record in Hrec; cbn [bucket_name object_key] in Hrec.
  split; [| split; [| split; [| split]]].
  - intros d rest bytes -> Hd Hid Hdel Hdl Hu Ha.
    rewrite split_slash_prescriptions, (split_slash_segment d rest Hd) in Hrec.
    change (String.eqb "prescriptions" "prescriptions") with true in Hrec.
    cbv beta iota in Hrec.
    rewrite Hu, (execute_ok w d _ _ _ (handle_upload_existing _ _ _ _ Hid Hdel)) in Hrec.
    cbv beta iota in Hrec; rewrite Hdl in Hrec; cbv beta iota zeta in Hrec.
    set (w1 := mkWorld _ _) in Hrec.
    assert (Hw1 : load w1 d = apply (load w d)
                    (PrescriptionUploaded (id (load w d)) (env_prescription_ulid env)
                       ("s3://" ++ bucket ++ "/" ++ ("prescriptions/" ++ d ++ "/" ++ rest))
                       (env_now_upload env)))
      by (unfold w1; rewrite load_after_commit; reflexivity).
    assert (Hid1 : is_empty (id (load w1 d)) = false) by (rewrite Hw1; exact Hid).
    assert (Hdel1 : deleted (load w1 d) = false) by (rewrite Hw1; exact Hdel).
    rewrite Ha, (execute_ok w1 d _ _ _ (handle_analyze_existing _ _ _ Hid1 Hdel1)) in Hrec.
    injection Hrec as <- <-.
    unfold load, log_update; cbn [event_log effects].
    rewrite !String.eqb_refl, !apply_all_app, <- app_assoc.
    fold (load w d).
    repeat split; reflexivity.
  - intros d rest f -> Hd Hf.
    rewrite split_slash_prescriptions, (split_slash_segment d rest Hd) in Hrec.
    change (String.eqb "prescriptions" "prescriptions") with true in Hrec.
    cbv beta iota in Hrec.
    destruct Hf as [Hu | (Hid & Hdel & Hu)]; rewrite Hu in Hrec.
    + cbn [execute] in Hrec; injection Hrec as <- <-; repeat split; reflexivity.
    + rewrite (execute_commit_failed w d _ _ _ _
                 (handle_upload_existing _ _ _ _ Hid Hdel)) in Hrec.
      injection Hrec as <- <-; repeat split; reflexivity.
  - intros d rest bytes f -> Hd Hid Hdel Hdl Hu Ha.
    rewrite split_slash_prescriptions, (split_slash_segment d rest Hd) in Hrec.
    change (String.eqb "prescriptions" "prescriptions") with true in Hrec.
    cbv beta iota in Hrec.
    rewrite Hu, (execute_ok w d _ _ _ (handle_upload_existing _ _ _ _ Hid Hdel)) in Hrec.
    cbv beta iota in Hrec; rewrite Hdl in Hrec; cbv beta iota zeta in Hrec.
    set (w1 := mkWorld _ _) in Hrec.
    assert (Hw1 : load w1 d = apply (load w d)
                    (PrescriptionUploaded (id (load w d)) (env_prescription_ulid env)
                       ("s3://" ++ bucket ++ "/" ++ ("prescriptions/" ++ d ++ "/" ++ rest))
                       (env_now_upload env)))
      by (unfold w1; rewrite load_after_commit; reflexivity).
    assert (Hid1 : is_empty (id (load w1 d)) = false) by (rewrite Hw1; exact Hid).
    assert (Hdel1 : deleted (load w1 d) = false) by (rewrite Hw1; exact Hdel).
    rewrite Ha, (execute_commit_failed w1 d _ _ _ _
                   (handle_analyze_existing _ _ _ Hid1 Hdel1)) in Hrec.
    injection Hrec as <- <-.
    unfold load, log_update; cbn [event_log effects].
    rewrite String.eqb_refl, apply_all_app, <- app_assoc.
    fold (load w d).
    repeat split; reflexivity.
  - intros d rest -> Hd Hid Hs.
    rewrite split_slash_prescriptions, (split_slash_segment d rest Hd) in Hrec.
    change (String.eqb "prescriptions" "prescriptions") with true in Hrec.
    cbv beta iota in Hrec.
    rewrite (execute_err w d _ _ _ _ (handle_upload_new _ _ _ _ Hid) Hs) in Hrec.
    cbv beta iota in Hrec.
    injection Hrec as <- <-.
    repeat split; reflexivity.
  - intros Hnot.
    cbv zeta in Hrec.
    destruct (split_slash key) as [| p0 [| q l]] eqn:Hk;
      [injection Hrec as <- <-; repeat split; reflexivity
      | injection Hrec as <- <-; repeat split; reflexivity |].
    destruct (String.eqb p0 "prescriptions") eqn:Hp.
    + apply String.eqb_eq in Hp; subst p0.
      destruct (split_slash_two_parts key _ _ _ Hk) as [rest Hkey].
      exfalso; exact (Hnot rest Hkey).
    + injection Hrec as <- <-; repeat split; reflexivity.
Qed.

Lemma s3_upload_commands_witness :
  let aj := fun (_ : string) (_ : nat) (_ : DateTime) => "{}" in
  let w0 := mkWorld (fun k => if String.eqb k "d1"
                              then [DispenseStarted "d1" 1%Z Pending] else []) [] in
  let rec := mkS3Record (Some "b") (Some "prescriptions/d1/scan.png") in
  (let '(w', r) := handle_s3_event aj w0
                     [(rec, mkS3Env "P1" 2%Z 3%Z 4%Z (Some []) StoreOk StoreOk)] in
   r = Ok tt /\ status (load w' "d1") = Ready)
  /\ (let '(w', r) := handle_s3_event aj w0
                       [(rec, mkS3Env "P1" 2%Z 3%Z 4%Z (Some []) StoreOk
                                (CommitFailed AggregateConflict))] in
      r = Err (StoreError AggregateConflict) /\ status (load w' "d1") = Analyzing).
Proof.
  intros aj w0 rec; split.
  - pose proof (s3_upload_commands aj w0 "b" "prescriptions/d1/scan.png"
                  (mkS3Env "P1" 2%Z 3%Z 4%Z (Some []) StoreOk StoreOk)) as H.
    destruct (handle_s3_event aj w0 _) as [w' r].
    destruct H as [H1 _].
    destruct (H1 "d1" "scan.png" [] eq_refl eq_refl eq_refl eq_refl eq_refl eq_refl eq_refl)
      as (Hr & _ & Hst & _).
    split; assumption.
  - pose proof (s3_upload_commands aj w0 "b" "prescriptions/d1/scan.png"
                  (mkS3Env "P1" 2%Z 3%Z 4%Z (Some []) StoreOk
                     (CommitFailed AggregateConflict))) as H.
    destruct (handle_s3_event aj w0 _) as [w' r].
    destruct H as (_ & _ & H3 & _).
    destruct (H3 "d1" "scan.png" [] AggregateConflict
                eq_refl eq_refl eq_refl eq_refl eq_refl eq_refl eq_refl)
      as (Hr & _ & Hst & _).
    split; assumption.
Defined.

(** * Further properties of the code *)

(** ** Event tags *)

(** Every event's type tag is ["Dispense:"] followed by a name, and two
    events have the same tag exactly when they are the same variant, so the
    tag identifies the variant (in particular, the analyzer's filter on
    ["Dispense:PrescriptionUploaded"] selects exactly [PrescriptionUploaded]
    events). *)
Theorem event_type_tags_variant (e1 e2 : Event) :
  (exists name, event_type e1 = (AGGREGATE_TYPE ++ ":" ++ name)%string)
  /\ (event_type e1 = event_type e2 <-> event_variant e1 = event_variant e2).
Proof.
  split.
  - destruct e1; eexists; reflexivity.
  - destruct e1, e2; cbn; split; intro H; try reflexivity; discriminate.
Qed.

(** ** Replaying an event list twice *)

Lemma Dispense_ext (a b : Dispense) :
  id a = id b -> created_at a = created_at b -> updated_at a = updated_at b ->
  status a = status b -> prescription_id a = prescription_id b ->
  prescription_url a = prescription_url b ->
  prescription_analyzed a = prescription_analyzed b ->
  patient_id a = patient_id b -> patient_name a = patient_name b ->
  drugs a = drugs b -> deleted a = deleted b -> a = b.
Proof. destruct a, b; cbn; intros; subst; reflexivity. Qed.

Lemma kept_or_set_compose {A} (f : Dispense -> A) (g1 g2 : Dispense -> Dispense) :
  kept_or_set f g1 -> kept_or_set f g2 -> kept_or_set f (fun s => g2 (g1 s)).
Proof.
  intros [K1 | C1] [K2 | C2].
  - left; intros s; rewrite K2; apply K1.
  - right; intros s t; apply C2.
  - right; intros s t; rewrite !K2; apply C1.
  - right; intros s t; apply C2.
Qed.

Lemma kept_or_set_idem {A} (f : Dispense -> A) (g : Dispense -> Dispense) :
  kept_or_set f g -> forall s, f (g (g s)) = f (g s).
Proof. intros [K | C] s; [apply K | apply C]. Qed.

Lemma overwrites_compose (g1 g2 : Dispense -> Dispense) :
  overwrites g1 -> overwrites g2 -> overwrites (fun s => g2 (g1 s)).
Proof.
  intros H1 H2; unfold overwrites in *;
    repeat match goal with H : _ /\ _ |- _ => destruct H end;
    repeat split; apply kept_or_set_compose; assumption.
Qed.

Lemma overwrites_idem (g : Dispense -> Dispense) :
  overwrites g -> forall s, g (g s) = g s.
Proof.
  intros H s; unfold overwrites in H;
    repeat match goal with H : _ /\ _ |- _ => destruct H end.
  apply Dispense_ext; apply kept_or_set_idem; assumption.
Qed.

Ltac kept_or_set_tac :=
  first [left; intro; reflexivity | right; intros; reflexivity].

Lemma apply_overwrites (e : Event) : overwrites (fun s => apply s e).
Proof. destruct e; repeat split; kept_or_set_tac. Qed.

Lemma apply_all_overwrites (evs : list Event) : overwrites (fun s => apply_all s evs).
Proof.
  induction evs as [| e es IH].
  - repeat split; left; intro; reflexivity.
  - exact (overwrites_compose _ _ (apply_overwrites e) IH).
Qed.

(** Each event sets absolute values, so applying an event list to the state
    it produced changes nothing: replaying a whole batch twice gives the
    state of replaying it once, for every state and every event list. *)
Theorem apply_all_idempotent (s : Dispense) (evs : list Event) :
  apply_all (apply_all s evs) evs = apply_all s evs.
Proof. exact (overwrites_idem _ (apply_all_overwrites evs) s). Qed.

(** ** Invariants of accepted commands *)

(** No event sets [deleted]: every state replayed from the zero value has
    [deleted = false], so [handle] on a replayed aggregate never returns
    [Forbidden]. *)
Theorem replayed_never_forbidden (evs : list Event) (c : Command) (now : DateTime) :
  deleted (apply_all Dispense_default evs) = false
  /\ handle (apply_all Dispense_default evs) c now <> Err Forbidden.
Proof.
  assert (Hdel : forall s, deleted (apply_all s evs) = deleted s).
  { induction evs as [| e es IH]; intros s; [reflexivity |].
    change (apply_all s (e :: es)) with (apply_all (apply s e) es).
    rewrite IH; apply apply_keeps_deleted. }
  split; [apply Hdel |].
  generalize (Hdel Dispense_default); cbn [deleted Dispense_default].
  generalize (apply_all Dispense_default evs) as s; intros s Hs.
  unfold handle, validate_new, validate_existing, validate_can_complete; rewrite Hs.
  destruct c, (is_empty (id s)), (patient_id s), (drugs s); cbn; intro H; discriminate H.
Qed.

(** On an aggregate with an id, every event an accepted command emits
    carries that id, and the id of the resulting state is unchanged. *)
Theorem accepted_keeps_aggregate_id (s : Dispense) (c : Command) (now : DateTime)
  (evs : list Event) :
  is_empty (id s) = false -> handle s c now = Ok evs ->
  Forall (fun e => event_aggregate_id e = id s) evs /\ id (apply_all s evs) = id s.
Proof.
  intros Hid.
  destruct c; unfold handle, validate_new, validate_existing;
    rewrite Hid; cbn; [discriminate | ..];
    destruct (deleted s); cbn; try discriminate;
    try (destruct (validate_can_complete s); cbn; [| discriminate]);
    intro H; injection H as <-; split; repeat constructor.
Qed.

Lemma accepted_keeps_aggregate_id_witness :
  Forall (fun e => event_aggregate_id e = "d1")
    [PatientAdded "d1" "p1" "Jane" 2%Z]
  /\ id (apply_all (mkDispense "d1" 1%Z 1%Z Pending None None false None None [] false)
           [PatientAdded "d1" "p1" "Jane" 2%Z]) = "d1".
Proof.
  exact (accepted_keeps_aggregate_id
           (mkDispense "d1" 1%Z 1%Z Pending None None false None None [] false)
           (AddPatient "p1" "Jane") 2%Z _ eq_refl eq_refl).
Defined.

(** Every accepted command sets [updated_at] to the clock reading of its
    invocation, and only [StartDispense] changes [created_at]. *)
Theorem accepted_sets_timestamps (s s' : Dispense) (c : Command) (now : DateTime) :
  step s c now = Ok s' ->
  updated_at s' = now
  /\ ((forall cid, c <> StartDispense cid) -> created_at s' = created_at s).
Proof.
  unfold step, handle.
  destruct c, (validate_new s), (validate_existing s), (validate_can_complete s);
    cbn; intro H; try discriminate; injection H as <-; cbn;
    (split; [reflexivity | intro Hc]);
    first [reflexivity | exfalso; eapply Hc; reflexivity].
Qed.

Lemma accepted_sets_timestamps_witness :
  updated_at (apply_all (mkDispense "d1" 1%Z 1%Z Pending None None false None None [] false)
                [DispenseCancelled "d1" 9%Z]) = 9%Z
  /\ ((forall cid, CancelDispense <> StartDispense cid) ->
      created_at (apply_all (mkDispense "d1" 1%Z 1%Z Pending None None false None None [] false)
                    [DispenseCancelled "d1" 9%Z]) = 1%Z).
Proof.
  exact (accepted_sets_timestamps
           (mkDispense "d1" 1%Z 1%Z Pending None None false None None [] false)
           _ CancelDispense 9%Z eq_refl).
Defined.

(** [AddDrugs] replaces the drug list wholesale (nothing is appended), even
    with an empty list, which an existing aggregate accepts; a following
    [CompleteDispense] is then rejected for lack of drugs. *)
Theorem add_drugs_replaces (s : Dispense) (ds : list DrugItem) (t1 t2 : DateTime)
  (Hid : is_empty (id s) = false) (Hdel : deleted s = false) :
  (exists s', step s (AddDrugs ds) t1 = Ok s' /\ drugs s' = ds)
  /\ run s [(AddDrugs [], t1); (CompleteDispense, t2)]
     = Err (Validation (match patient_id s with
                        | None => "Cannot complete dispense without patient"
                        | Some _ => "Cannot complete dispense without drugs"
                        end)).
Proof.
  split.
  - eexists; split; [existing_state Hid Hdel; reflexivity | reflexivity].
  - cbn; unfold step, handle; rewrite (validate_existing_ok _ Hid Hdel); cbn.
    unfold validate_existing; cbn; rewrite Hid, Hdel; cbn.
    destruct (patient_id s); reflexivity.
Qed.

Lemma add_drugs_replaces_witness :
  run (mkDispense "d1" 1%Z 1%Z Ready None None true (Some "p1") (Some "Jane")
         [mkDrugItem "a" "Aspirin" 30] false)
      [(AddDrugs [], 2%Z); (CompleteDispense, 3%Z)]
  = Err (Validation "Cannot complete dispense without drugs").
Proof.
  exact (proj2 (add_drugs_replaces
                  (mkDispense "d1" 1%Z 1%Z Ready None None true (Some "p1") (Some "Jane")
                     [mkDrugItem "a" "Aspirin" 30] false) [] 2%Z 3%Z eq_refl eq_refl)).
Defined.

(** ** The read model over batches *)

Lemma View_ext (a b : View.View) :
  View.aggregate_type a = View.aggregate_type b -> View.command_id a = View.command_id b ->
  View.id a = View.id b -> View.dispense a = View.dispense b -> a = b.
Proof. destruct a, b; cbn; intros; subst; reflexivity. Qed.

Lemma view_fold_dispense (evs : list View.EventEnvelope) (v : View.View) :
  View.dispense (fold_left View.update evs v)
  = apply_all (View.dispense v) (map View.payload evs).
Proof.
  revert v; induction evs as [| e es IH]; intros v; [reflexivity |].
  cbn [fold_left map]; rewrite IH; reflexivity.
Qed.

Lemma view_fold_last (evs : list View.EventEnvelope) (e : View.EventEnvelope)
  (v : View.View) :
  fold_left View.update (evs ++ [e]) v = View.update (fold_left View.update evs v) e.
Proof. rewrite fold_left_app; reflexivity. Qed.

(** A non-empty batch sets the header fields of the view from its last
    envelope alone. *)
Lemma view_fold_header (evs : list View.EventEnvelope) (v v' : View.View) :
  evs <> [] ->
  View.aggregate_type (fold_left View.update evs v)
    = View.aggregate_type (fold_left View.update evs v')
  /\ View.command_id (fold_left View.update evs v)
     = View.command_id (fold_left View.update evs v')
  /\ View.id (fold_left View.update evs v) = View.id (fold_left View.update evs v').
Proof.
  intros Hne.
  destruct (exists_last Hne) as (pre & e & ->).
  rewrite !view_fold_last; cbn; repeat split.
Qed.

(** [Query::update] on an aggregate with no stored view starts from the
    default view with context [(dispense_id, 0)]; the written view holds
    the state replayed from the zero value over the batch's payloads, and,
    for a non-empty batch, the aggregate type ["Dispense"], the aggregate id
    and the [command_id] metadata (or [""]) of the last envelope. A second
    call that loads the written view and applies a further batch writes the
    same view as one call over both batches. *)
Theorem query_update_fresh (dispense_id : string) (evs more : list View.EventEnvelope)
  (v : View.View) (c : Query.ViewContext) :
  Query.update (Ok None) dispense_id evs = Ok (v, c) ->
  c = Query.mkViewContext dispense_id 0
  /\ View.dispense v = apply_all Dispense_default (map View.payload evs)
  /\ (forall pre e, evs = (pre ++ [e])%list ->
        View.aggregate_type v = AGGREGATE_TYPE
        /\ View.id v = View.aggregate_id e
        /\ View.command_id v
           = match View.get "command_id" (View.metadata e) with Some x => x | None => "" end)
  /\ Query.update (Ok (Some (v, c))) dispense_id more
     = Query.update (Ok None) dispense_id (evs ++ more).
Proof.
  cbn; intro H; injection H as <- <-.
  split; [reflexivity | split; [| split]].
  - rewrite view_fold_dispense; reflexivity.
  - intros pre e ->; rewrite view_fold_last; cbn; repeat split.
  - rewrite fold_left_app; reflexivity.
Qed.

Lemma query_update_fresh_witness :
  let env := View.mkEnvelope "d1" 1 (DispenseStarted "d1" 5%Z Pending)
               [("command_id", "c1")] in
  Query.update (Ok None) "d1" [env]
  = Ok (fold_left View.update [env] View.View_default, Query.mkViewContext "d1" 0)
  /\ View.dispense (fold_left View.update [env] View.View_default)
     = apply_all Dispense_default [DispenseStarted "d1" 5%Z Pending].
Proof.
  intros env; split; [reflexivity |].
  exact (proj1 (proj2 (query_update_fresh "d1" [env] [] _ _ eq_refl))).
Defined.

(** Redelivery: when [Query::update] has written view [v] for a batch, a
    second delivery of the same batch on top of [v] writes [v] again. *)
Theorem query_update_redelivery_idempotent
  (loaded : result (option (View.View * Query.ViewContext)) string)
  (dispense_id : string) (evs : list View.EventEnvelope)
  (v : View.View) (c : Query.ViewContext) :
  Query.update loaded dispense_id evs = Ok (v, c) ->
  Query.update (Ok (Some (v, c))) dispense_id evs = Ok (v, c).
Proof.
  unfold Query.update; destruct loaded as [o | e]; [| discriminate].
  set (start := match o with
                | Some (view, context) => (view, context)
                | None => (View.View_default, Query.mkViewContext dispense_id 0)
                end).
  replace (match o with
           | Some (view, context) => (view, context)
           | None => (View.View_default, Query.mkViewContext dispense_id 0)
           end) with start by (unfold start; destruct o as [[? ?] |]; reflexivity).
  destruct start as [v0 c0].
  intro H; injection H as <- <-.
  f_equal; f_equal.
  destruct evs as [| e es]; [reflexivity |].
  destruct (view_fold_header (e :: es) (fold_left View.update (e :: es) v0) v0)
    as (H1 & H2 & H3); [discriminate |].
  apply View_ext; try assumption.
  rewrite !view_fold_dispense; apply apply_all_idempotent.
Qed.

Lemma query_update_redelivery_idempotent_witness :
  let env := View.mkEnvelope "d1" 1 (DispenseStarted "d1" 5%Z Pending)
               [("command_id", "c1")] in
  Query.update (Ok (Some (fold_left View.update [env] View.View_default,
                          Query.mkViewContext "d1" 0))) "d1" [env]
  = Ok (fold_left View.update [env] View.View_default, Query.mkViewContext "d1" 0).
Proof.
  intros env.
  exact (query_update_redelivery_idempotent (Ok None) "d1" [env] _ _ eq_refl).
Defined.

(** ** The upload-notification handler over several records *)

Lemma execute_effects (w w1 : World) (d : string) (c : Command) (now : DateTime)
  (store : StoreOutcome) (r : result unit HandlerError) :
  execute w d c now store = (w1, r) -> effects w1 = (effects w ++ [Exec d c])%list.
Proof.
  unfold execute; destruct store; [| intro H; injection H as <- _; reflexivity |];
    destruct (handle (load w d) c now); intro H; injection H as <- _; reflexivity.
Qed.

(** Records are handled in order and the first failing one ends the
    invocation: handling [pre ++ post] is handling [pre], then, only if
    that succeeded, handling [post] from the resulting world. *)
Theorem handle_s3_event_app (aj : string -> nat -> DateTime -> string) (w : World)
  (pre post : list (S3EventRecord * S3Env)) :
  handle_s3_event aj w (pre ++ post)
  = let '(w1, r1) := handle_s3_event aj w pre in
    match r1 with
    | Ok _ => handle_s3_event aj w1 post
    | Err e => (w1, Err e)
    end.
Proof.
  revert w; induction pre as [| [r env] rs IH]; intros w.
  - cbn; reflexivity.
  - cbn [app handle_s3_event].
    destruct (handle_s3_record aj w r env) as [w1 [u | e]].
    + apply IH.
    + reflexivity.
Qed.

Lemma s3_record_ignored (aj : string -> nat -> DateTime -> string) (w : World)
  (bucket key : string) (env : S3Env) :
  (forall rest, key <> ("prescriptions/" ++ rest)%string) ->
  handle_s3_record aj w (mkS3Record (Some bucket) (Some key)) env
  = (mkWorld (event_log w) (effects w ++ [Warn ("Invalid S3 key format: " ++ key)])%list,
     Ok tt).
Proof.
  intros Hnot; unfold handle_s3_record; cbn [bucket_name object_key]; cbv zeta.
  destruct (split_slash key) as [| p0 [| q l]] eqn:Hk; try reflexivity.
  destruct (String.eqb p0 "prescriptions") eqn:Hp; [| reflexivity].
  apply String.eqb_eq in Hp; subst p0.
  destruct (split_slash_two_parts key _ _ _ Hk) as [rest Hkey].
  exfalso; exact (Hnot rest Hkey).
Qed.

(** A notification all of whose records carry a bucket and a key outside
    [prescriptions/] succeeds, commits nothing, and logs exactly one
    warning per record (naming its key), in order. *)
Theorem s3_event_unrelated_keys (aj : string -> nat -> DateTime -> string) (w : World)
  (records : list (string * string * S3Env)) :
  Forall (fun '(_, key, _) => forall rest, key <> ("prescriptions/" ++ rest)%string)
    records ->
  handle_s3_event aj w
    (map (fun '(bucket, key, env) => (mkS3Record (Some bucket) (Some key), env)) records)
  = (mkWorld (event_log w)
       (effects w ++ map (fun '(_, key, _) => Warn ("Invalid S3 key format: " ++ key))
                         records)%list,
     Ok tt).
Proof.
  revert w; induction records as [| [[bucket key] env] rs IH]; intros w Hall.
  - destruct w; cbn; rewrite app_nil_r; reflexivity.
  - inversion Hall as [| x xs Hx Hrs]; subst.
    cbn [map handle_s3_event].
    rewrite (s3_record_ignored aj w bucket key env Hx).
    rewrite (IH _ Hrs); cbn [event_log effects].
    rewrite <- app_assoc; reflexivity.
Qed.

Lemma s3_event_unrelated_keys_witness :
  handle_s3_event (fun _ _ _ => "{}") (mkWorld (fun _ => []) [])
    [(mkS3Record (Some "b") (Some "unrelated/file.png"),
      mkS3Env "P1" 1%Z 2%Z 3%Z None StoreOk StoreOk)]
  = (mkWorld (fun _ => []) [Warn "Invalid S3 key format: unrelated/file.png"], Ok tt).
Proof.
  exact (s3_event_unrelated_keys (fun _ _ _ => "{}") (mkWorld (fun _ => []) [])
           [("b", "unrelated/file.png", mkS3Env "P1" 1%Z 2%Z 3%Z None StoreOk StoreOk)]
           ltac:(repeat constructor; intros rest H; discriminate H)).
Defined.

(** Round trip between [get_upload_url] and the analyzer: the object key the
    API hands out for dispense [d] (a single path segment) makes the
    analyzer's first command an [UploadPrescription] against [d] itself,
    with the [s3://bucket/key] location, and every command it issues
    targets [d]. *)
Theorem upload_key_routes_to_dispense (aj : string -> nat -> DateTime -> string)
  (w : World) (bucket d pid : string) (env : S3Env) :
  split_slash d = [d] ->
  let key := upload_key d pid in
  let '(w', _) := handle_s3_record aj w (mkS3Record (Some bucket) (Some key)) env in
  exists more,
    effects w' = (effects w ++
      Exec d (UploadPrescription (env_prescription_ulid env)
                ("s3://" ++ bucket ++ "/" ++ key)) :: more)%list
    /\ Forall (fun ef => exists c, ef = Exec d c) more.
Proof.
  intros Hd key.
  destruct (handle_s3_record aj w (mkS3Record (Some bucket) (Some key)) env)
    as [w' r] eqn:Hrec.
  unfold handle_s3_record in Hrec; cbn [bucket_name object_key] in Hrec.
  unfold key, upload_key in Hrec.
  rewrite split_slash_prescriptions, (split_slash_segment d pid Hd) in Hrec.
  change (String.eqb "prescriptions" "prescriptions") with true in Hrec.
  cbv beta iota in Hrec.
  fold (upload_key d pid) in Hrec; fold key in Hrec.
  destruct (execute w d (UploadPrescription (env_prescription_ulid env)
                           ("s3://" ++ bucket ++ "/" ++ key)) (env_now_upload env)
                    (env_store_upload env))
    as [w1 r1] eqn:E1.
  apply execute_effects in E1.
  destruct r1 as [u | e].
  - destruct (env_download env) as [bytes |].
    + apply execute_effects in Hrec.
      exists [Exec d (AnalyzePrescription (aj key (length bytes) (env_now_analysis env)))].
      rewrite Hrec, E1, <- app_assoc; split; [reflexivity | repeat constructor; eauto].
    + injection Hrec as <- _; exists []; rewrite E1; split; constructor.
  - injection Hrec as <- _; exists []; rewrite E1; split; constructor.
Qed.

Lemma upload_key_routes_to_dispense_witness :
  let '(w', _) := handle_s3_record (fun _ _ _ => "{}") (mkWorld (fun _ => []) [])
                    (mkS3Record (Some "b") (Some (upload_key "d1" "P9")))
                    (mkS3Env "P1" 1%Z 2%Z 3%Z None StoreOk StoreOk) in
  exists more,
    effects w' = (effects (mkWorld (fun _ => []) []) ++
      Exec "d1" (UploadPrescription "P1" ("s3://" ++ "b" ++ "/" ++ upload_key "d1" "P9"))
        :: more)%list
    /\ Forall (fun ef => exists c, ef = Exec "d1" c) more.
Proof.
  exact (upload_key_routes_to_dispense (fun _ _ _ => "{}") (mkWorld (fun _ => []) [])
           "b" "d1" "P9" (mkS3Env "P1" 1%Z 2%Z 3%Z None StoreOk StoreOk) eq_refl).
Defined.

(** ** Converting event log records *)

Lemma ascii_utf8_valid (l : list Byte.byte) :
  Publisher.is_ascii l = true -> Publisher.utf8_valid l = true.
Proof.
  induction l as [| b r IH]; intros H; [reflexivity |].
  cbn in H; apply andb_true_iff in H as [Hb Hr].
  cbn; rewrite Hb; apply IH, Hr.
Qed.

(** A record whose payload and metadata are ASCII always converts, and the
    envelope carries the record's aggregate id, aggregate type, sequence,
    event type, version, payload and metadata; an ill-formed UTF-8 payload
    is reported as a payload error whatever the metadata holds. *)
Theorem try_from_ascii_and_payload_first (r : Publisher.EventLogRecord) :
  (Publisher.is_ascii (Publisher.payload r) = true ->
   Publisher.is_ascii (Publisher.metadata r) = true ->
   Publisher.try_from r
   = Ok (Publisher.mkDomainEvent (Publisher.aggregate_id r) (Publisher.aggregate_type r)
           (Publisher.aggregate_id_sequence r) (Publisher.event_type r)
           (Publisher.event_version r) (Publisher.payload r) (Publisher.metadata r)))
  /\ (Publisher.utf8_valid (Publisher.payload r) = false ->
      Publisher.try_from r = Err Publisher.InvalidPayloadUtf8).
Proof.
  unfold Publisher.try_from; split.
  - intros Hp Hm; rewrite (ascii_utf8_valid _ Hp), (ascii_utf8_valid _ Hm); reflexivity.
  - intros Hp; rewrite Hp; reflexivity.
Qed.

Lemma try_from_ascii_and_payload_first_witness :
  Publisher.try_from (Publisher.mkEventLogRecord "Dispense:d1" "Dispense:Started" "d1"
                        "Dispense" [Byte.x7b] [Byte.x7d] "1.0" 1)
  = Ok (Publisher.mkDomainEvent "d1" "Dispense" 1 "Dispense:Started" "1.0"
          [Byte.x7d] [Byte.x7b])
  /\ Publisher.try_from (Publisher.mkEventLogRecord "Dispense:d1" "Dispense:Started" "d1"
                           "Dispense" [Byte.x7b] [Byte.xff] "1.0" 1)
     = Err Publisher.InvalidPayloadUtf8.
Proof.
  split.
  - exact (proj1 (try_from_ascii_and_payload_first
                    (Publisher.mkEventLogRecord "Dispense:d1" "Dispense:Started" "d1"
                       "Dispense" [Byte.x7b] [Byte.x7d] "1.0" 1)) eq_refl eq_refl).
  - exact (proj2 (try_from_ascii_and_payload_first
                    (Publisher.mkEventLogRecord "Dispense:d1" "Dispense:Started" "d1"
                       "Dispense" [Byte.x7b] [Byte.xff] "1.0" 1)) eq_refl).
Defined.
